(** * snmalloc: thread-local allocator attachment and the Apple PAL

    A shallow embedding of [src/mem/threadalloc.h] (the thread slot, the
    teardown strategies and lazy replacement of the global placeholder) and
    of [src/pal/pal_apple.h] (capability flags, [zero] and [reserve]),
    followed by the properties proved about them. *)

From Stdlib Require Import ZArith List Bool Lia String.
Import ListNotations.

Set Implicit Arguments.

(** ** Allocator pointers

    The code only ever compares [Alloc*] values for equality, against
    [nullptr] and against [&GlobalPlaceHolder].  A pointer is therefore one
    of these two distinguished values or the address of some other
    allocator, named by a number. *)
Inductive AllocPtr : Type :=
| nullptr
| GlobalPlaceHolder
| Handle (id : nat).

Definition ptr_eqb (a b : AllocPtr) : bool :=
  match a, b with
  | nullptr, nullptr => true
  | GlobalPlaceHolder, GlobalPlaceHolder => true
  | Handle i, Handle j => Nat.eqb i j
  | _, _ => false
  end.

(** The calls a thread makes on the allocator pool, in program order. *)
Inductive pool_call : Type :=
| Acquire (h : AllocPtr)
| Release (h : AllocPtr).

(** The allocator pool is an external collaborator ([globalalloc.h] is only
    included by the sources): the code below is written against its two
    operations. [acquire] hands out a pointer and [release] takes one back;
    both may change the pool. *)
Class AllocPool (P : Type) : Type := {
  acquire : P -> AllocPtr * P;
  release : AllocPtr -> P -> P
}.

(** Modelled from the spec: the Allocator Pool, whose code is not among the
    sources.  [acquire] returns a handle, creating one if the pool is empty;
    [release] returns it for reuse; handle identity persists across
    release and reacquire; the Placeholder is never pooled. *)
Record SpecPool : Type := mkSpecPool {
  idle : list nat;
  next_fresh : nat
}.

Definition SpecPool_acquire (p : SpecPool) : AllocPtr * SpecPool :=
  match idle p with
  | h :: rest => (Handle h, {| idle := rest; next_fresh := next_fresh p |})
  | [] =>
      (Handle (next_fresh p), {| idle := []; next_fresh := S (next_fresh p) |})
  end.

Definition SpecPool_release (h : AllocPtr) (p : SpecPool) : SpecPool :=
  match h with
  | Handle i => {| idle := i :: idle p; next_fresh := next_fresh p |}
  | _ => p
  end.

#[export] Instance SpecPool_AllocPool : AllocPool SpecPool := {
  acquire := SpecPool_acquire;
  release := SpecPool_release
}.

(** A pool that breaks its contract by handing out the placeholder; it only
    serves to exercise the assertion of [lazy_replacement_slow]. *)
#[export] Instance BrokenPool_AllocPool : AllocPool unit := {
  acquire := fun p => (GlobalPlaceHolder, p);
  release := fun _ p => p
}.

(** ** Thread state

    What one thread sees: its thread-local slot, the pool, the pool calls it
    has made so far, and whether the [thread_local OnDestruct] object of
    [ThreadAllocThreadDestructor::register_cleanup] has been constructed. *)
Record thread (P : Type) : Type := mkThread {
  slot : AllocPtr;
  pool : P;
  calls : list pool_call;
  tidier : bool
}.

(** The build-time choice of [ThreadAlloc]. *)
Inductive strategy : Type :=
| LibcCleanup
| ThreadDestructor
| ExternalThreadAlloc.

(** [assert(c)]: checked unless the build defines [NDEBUG]; a failed check
    aborts the process, which is [None] here. *)
Definition assert (NDEBUG c : bool) : option unit :=
  if NDEBUG || c then Some tt else None.

Section ThreadAlloc.
Context {P : Type} `{AllocPool P}.

(** [static thread_local Alloc* alloc = &GlobalPlaceHolder;] is constant
    initialised, so a thread starts with the placeholder in its slot. *)
Definition fresh_thread (p : P) : thread P :=
  {| slot := GlobalPlaceHolder; pool := p; calls := []; tidier := false |}.

(** Assignment through the reference returned by [get()]. *)
Definition set_slot (v : AllocPtr) (st : thread P) : thread P :=
  {| slot := v; pool := pool st; calls := calls st; tidier := tidier st |}.

(** [current_alloc_pool()->release(h)] *)
Definition pool_release (h : AllocPtr) (st : thread P) : thread P :=
  {| slot := slot st; pool := release h (pool st);
     calls := calls st ++ [Release h]; tidier := tidier st |}.

(** [current_alloc_pool()->acquire()] *)
Definition pool_acquire (st : thread P) : AllocPtr * thread P :=
  let '(h, p') := acquire (pool st) in
  (h, {| slot := slot st; pool := p';
         calls := calls st ++ [Acquire h]; tidier := tidier st |}).
End ThreadAlloc.

Module ThreadAllocLibcCleanup.
Section Defs.
Context {P : Type} `{AllocPool P}.

(** [get()] returns a reference to the thread-local [per_thread]; reading
    through it yields the slot's value and changes nothing. *)
Definition get (st : thread P) : AllocPtr * thread P := (slot st, st).

Definition register_cleanup (st : thread P) : thread P := st.

(** [exit()], keeping its local variable visible.  [auto* per_thread =
    get();] declares a pointer, not a reference: [per_thread] is a copy of
    the slot's value, and the assignment [per_thread = nullptr] writes to
    that copy.  The result is the final value of the local and the thread
    state. *)
Definition exit_body (st : thread P) : AllocPtr * thread P :=
  let '(per_thread, st) := get st in
  if negb (ptr_eqb per_thread GlobalPlaceHolder)
     && negb (ptr_eqb per_thread nullptr)
  then
    let st := pool_release per_thread st in
    let per_thread := nullptr in
    (per_thread, st)
  else (per_thread, st).

Definition exit (st : thread P) : thread P := snd (exit_body st).

(** [_malloc_thread_cleanup], the entry point libc calls. *)
Definition _malloc_thread_cleanup (st : thread P) : thread P := exit st.
End Defs.
End ThreadAllocLibcCleanup.

Module ThreadAllocThreadDestructor.
Section Defs.
Context {P : Type} `{AllocPool P}.

Definition get (st : thread P) : AllocPtr * thread P := (slot st, st).

(** [inner_release()]: every use of the slot goes through [get()], so the
    assignment [get() = &GlobalPlaceHolder] writes to the slot itself. *)
Definition inner_release (st : thread P) : thread P :=
  let '(a, st) := get st in
  if negb (ptr_eqb a GlobalPlaceHolder) then
    let '(a, st) := get st in
    let st := pool_release a st in
    set_slot GlobalPlaceHolder st
  else st.

(** [register_cleanup()]: the first call constructs the thread-local
    [OnDestruct<inner_release> tidier]; later calls find it constructed. *)
Definition register_cleanup (st : thread P) : thread P :=
  {| slot := slot st; pool := pool st; calls := calls st; tidier := true |}.

(** Destruction of the thread's local storage, which happens once in the
    life of a thread: [~OnDestruct] runs [inner_release] if the object was
    ever constructed.  This is the only caller of [inner_release]. *)
Definition thread_storage_destroyed (st : thread P) : thread P :=
  if tidier st then inner_release st else st.
End Defs.
End ThreadAllocThreadDestructor.

Module ThreadAllocUntypedWrapper.
Section Defs.
Context {P : Type}.

(** The host runtime owns the storage; [get()] only types the access. *)
Definition get (st : thread P) : AllocPtr * thread P := (slot st, st).

Definition register_cleanup (st : thread P) : thread P := st.
End Defs.
End ThreadAllocUntypedWrapper.

Section LazyReplacement.
Context {P : Type} `{AllocPool P}.
Variable NDEBUG : bool.
Variable ThreadAlloc : strategy.

(** [ThreadAlloc::get()] and [ThreadAlloc::register_cleanup()] under the
    [using ThreadAlloc = ...] selected by the build. *)
Definition ThreadAlloc_get (st : thread P) : AllocPtr * thread P :=
  match ThreadAlloc with
  | LibcCleanup => ThreadAllocLibcCleanup.get st
  | ThreadDestructor => ThreadAllocThreadDestructor.get st
  | ExternalThreadAlloc => ThreadAllocUntypedWrapper.get st
  end.

Definition ThreadAlloc_register_cleanup (st : thread P) : thread P :=
  match ThreadAlloc with
  | LibcCleanup => ThreadAllocLibcCleanup.register_cleanup st
  | ThreadDestructor => ThreadAllocThreadDestructor.register_cleanup st
  | ExternalThreadAlloc => ThreadAllocUntypedWrapper.register_cleanup st
  end.

(** [lazy_replacement_slow()].  [auto*& local_alloc = ThreadAlloc::get();]
    binds a reference, so [local_alloc] below always denotes the slot:
    the assignment stores into it and the returns read it back. *)
Definition lazy_replacement_slow (st : thread P)
  : option (AllocPtr * thread P) :=
  let '(local_alloc, st) := ThreadAlloc_get st in
  if negb (ptr_eqb local_alloc nullptr)
     && negb (ptr_eqb local_alloc GlobalPlaceHolder)
  then Some (local_alloc, st)
  else
    let '(h, st) := pool_acquire st in
    let st := set_slot h st in
    match assert NDEBUG (negb (ptr_eqb (slot st) GlobalPlaceHolder)) with
    | None => None
    | Some _ =>
        let st := ThreadAlloc_register_cleanup st in
        Some (slot st, st)
    end.

(** [lazy_replacement(existing)] *)
Definition lazy_replacement (existing : AllocPtr) (st : thread P)
  : option (AllocPtr * thread P) :=
  if negb (ptr_eqb existing GlobalPlaceHolder)
  then Some (nullptr, st)
  else lazy_replacement_slow st.
End LazyReplacement.

(** A run of [n] successive [get()] calls: the values returned, in order,
    and the state after the last call. *)
Fixpoint get_calls {P : Type} (get : thread P -> AllocPtr * thread P)
  (n : nat) (st : thread P) : list AllocPtr * thread P :=
  match n with
  | O => ([], st)
  | S k =>
      let '(a, st) := get st in
      let '(rest, st) := get_calls get k st in
      (a :: rest, st)
  end.

(** ** Sequences of operations on one thread

    What happens to a thread's slot between its creation and its teardown:
    the allocator engine reads the slot with [get()] and calls
    [lazy_replacement] on its slow paths, and, under the thread-destructor
    strategy, [inner_release] runs through [~OnDestruct] when thread-local
    storage is destroyed, possibly with further allocations after it. *)
Inductive op : Type :=
| OpGet
| OpLazyReplacement (existing : AllocPtr)
| OpInnerRelease.

(** [OpInnerRelease], the destruction of the [tidier] object, is code of
    the thread-destructor strategy only. *)
Definition is_engine_op (o : op) : bool :=
  match o with
  | OpInnerRelease => false
  | _ => true
  end.

Section Runs.
Context {P : Type} `{AllocPool P}.
Variable NDEBUG : bool.
Variable ThreadAlloc : strategy.

(** One operation; [None] is a failed assertion. *)
Definition step (o : op) (st : thread P) : option (thread P) :=
  match o with
  | OpGet => Some (snd (ThreadAlloc_get ThreadAlloc st))
  | OpLazyReplacement existing =>
      match lazy_replacement NDEBUG ThreadAlloc existing st with
      | Some (_, st) => Some st
      | None => None
      end
  | OpInnerRelease =>
      Some (ThreadAllocThreadDestructor.thread_storage_destroyed st)
  end.

Fixpoint run (ops : list op) (st : thread P) : option (thread P) :=
  match ops with
  | [] => Some st
  | o :: rest =>
      match step o st with
      | Some st => run rest st
      | None => None
      end
  end.
End Runs.

(** How many times a sequence destroys the thread's storage.  A thread's
    storage is destroyed once, so the runs of a program have at most one. *)
Definition destructions (ops : list op) : nat :=
  List.length (filter (fun o => negb (is_engine_op o)) ops).

(** The pointer is the address of a real allocator. *)
Definition is_handle (a : AllocPtr) : bool :=
  match a with
  | Handle _ => true
  | _ => false
  end.

(** The part of the pool's contract the thread code relies on: [acquire]
    hands out a real allocator, never null and never the placeholder. *)
Definition acquires_handles (P : Type) `{AllocPool P} : Prop :=
  forall p : P, is_handle (fst (acquire p)) = true.
Arguments acquires_handles P {_}.

(** Book-keeping over a record of pool calls.  [Some None]: every handle
    acquired so far has been released.  [Some (Some h)]: [h] is checked out
    and nothing else is.  [None]: the record is not one of a thread holding
    at most one handle: it acquired while holding one, or released what it
    did not hold. *)
Definition outstanding_step (cur : option (option AllocPtr)) (c : pool_call)
  : option (option AllocPtr) :=
  match cur, c with
  | Some None, Acquire h => Some (Some h)
  | Some (Some h), Release h' => if ptr_eqb h h' then Some None else None
  | _, _ => None
  end.

Definition outstanding (l : list pool_call) : option (option AllocPtr) :=
  fold_left outstanding_step l (Some None).

(** What the thread-destructor strategy maintains between operations: the
    slot is not null; the slot holds exactly the handle that is checked
    out, if any; and a thread holding a handle has its [tidier]. *)
Definition accounts_ok {P : Type} (st : thread P) : Prop :=
  slot st <> nullptr
  /\ outstanding (calls st)
       = Some (if ptr_eqb (slot st) GlobalPlaceHolder then None
               else Some (slot st))
  /\ (slot st <> GlobalPlaceHolder -> tidier st = true).

(** States for examples: a pool with one idle handle, number 5, and 9 the
    next fresh one; and a thread attached to handle 2. *)
Definition pool0 : SpecPool := {| idle := [5]; next_fresh := 9 |}.

Definition attached : thread SpecPool :=
  {| slot := Handle 2; pool := pool0; calls := []; tidier := true |}.

(** A teardown with an allocation after it: promotion, release, promotion
    again, and a slow path entered from the real allocator. *)
Definition reentrant_ops : list op :=
  [OpGet; OpLazyReplacement GlobalPlaceHolder; OpInnerRelease;
   OpLazyReplacement GlobalPlaceHolder; OpLazyReplacement (Handle 5)].

Definition engine_ops : list op :=
  [OpGet; OpLazyReplacement GlobalPlaceHolder; OpGet;
   OpLazyReplacement (Handle 5); OpLazyReplacement GlobalPlaceHolder].

(** ** The Apple platform abstraction layer *)

Module PALApple.

Local Open Scope Z_scope.

(** The arguments of one [mmap] call, in the order of its parameters. *)
Record mmap_args : Type := mkMmapArgs {
  m_addr : Z;
  m_len : Z;
  m_prot : Z;
  m_flags : Z;
  m_fd : Z;
  m_offset : Z
}.

(** The operating-system and libc calls made, with the value [mmap]
    returned. *)
Inductive os_call : Type :=
| Call_mmap (a : mmap_args) (ret : Z)
| Call_bzero (p size : Z).

(** The process as the PAL sees it: the bytes at each address, the kernel's
    decision on each mapping request ([None] refuses it, [Some q] grants it
    and proposes address [q]), and the calls made so far. *)
Record machine : Type := mkMachine {
  memory : Z -> Z;
  kernel : mmap_args -> option Z;
  os_calls : list os_call
}.

(** Values of [<sys/mman.h>] and [<mach/vm_statistics.h>] on Darwin. *)
Definition PROT_READ : Z := 0x01.
Definition PROT_WRITE : Z := 0x02.
Definition MAP_PRIVATE : Z := 0x0002.
Definition MAP_FIXED : Z := 0x0010.
Definition MAP_ANONYMOUS : Z := 0x1000.
Definition MAP_FAILED : Z := 2 ^ 64 - 1.
Definition VM_MAKE_TAG (tag : Z) : Z := Z.shiftl tag 24.

(** The value of a 32-bit [int] holding [z] modulo [2 ^ 32]. *)
Definition to_int (z : Z) : Z := (z + 2 ^ 31) mod 2 ^ 32 - 2 ^ 31.

(** [int pal_anon_id = VM_MAKE_TAG(241);] the shift is done on an [int]
    and the result, whose bit 31 is set, is stored in an [int]. *)
Definition pal_anon_id : Z := to_int (VM_MAKE_TAG 241).

(** The result of a call that may end the process. *)
Inductive outcome (A : Type) : Type :=
| Returns (a : A) (m : machine)
| Fatal (msg : string) (m : machine).
Arguments Fatal {A} msg m.

(** Modelled from the spec: [error], inherited from the BSD family base
    whose code is not among the sources.  It is a process-terminating
    error, not a recoverable result. *)
Definition error {A : Type} (msg : string) (m : machine) : outcome A :=
  Fatal msg m.

(** [fill_zero p len mem] is [mem] with the bytes of [p, p + len) set to
    zero. *)
Definition fill_zero (p len : Z) (mem : Z -> Z) : Z -> Z :=
  fun a => if (p <=? a) && (a <? p + len) then 0 else mem a.

(** libc's [bzero(p, size)] *)
Definition bzero (p size : Z) (m : machine) : machine :=
  {| memory := fill_zero p size (memory m);
     kernel := kernel m;
     os_calls := os_calls m ++ [Call_bzero p size] |}.

(** The argument list of the [mmap] call in [zero]:
    [mmap(p, size, PROT_READ | PROT_WRITE,
          MAP_PRIVATE | MAP_ANONYMOUS | MAP_FIXED, pal_anon_id, 0)]. *)
Definition zero_request (p size : Z) : mmap_args :=
  {| m_addr := p;
     m_len := size;
     m_prot := Z.lor PROT_READ PROT_WRITE;
     m_flags := Z.lor (Z.lor MAP_PRIVATE MAP_ANONYMOUS) MAP_FIXED;
     m_fd := pal_anon_id;
     m_offset := 0 |}.

(** The argument list of the [mmap] call in [reserve]:
    [mmap(nullptr, *size, PROT_READ | PROT_WRITE,
          MAP_PRIVATE | MAP_ANONYMOUS, pal_anon_id, 0)]. *)
Definition reserve_request (size : Z) : mmap_args :=
  {| m_addr := 0;
     m_len := size;
     m_prot := Z.lor PROT_READ PROT_WRITE;
     m_flags := Z.lor MAP_PRIVATE MAP_ANONYMOUS;
     m_fd := pal_anon_id;
     m_offset := 0 |}.

Section Backend.
Variable OS_PAGE_SIZE : Z.
Variable NDEBUG : bool.
Variable PALBSD_pal_features : Z.

(** [static constexpr uint64_t pal_features = PALBSD::pal_features;] *)
Definition pal_features : Z := PALBSD_pal_features.

(** Modelled from the spec: [bits::is_aligned_block<alignment>(p, size)],
    whose code is not among the sources: the region is aligned when both
    its address and its size are aligned to [alignment]. *)
Definition is_aligned_block (alignment p size : Z) : bool :=
  (p mod alignment =? 0) && (size mod alignment =? 0).

(** The kernel maps whole pages. *)
Definition round_up_to_page (len : Z) : Z :=
  (len + OS_PAGE_SIZE - 1) / OS_PAGE_SIZE * OS_PAGE_SIZE.

(** Where an anonymous private mapping lands, if anywhere.  An empty
    request is refused.  With [MAP_FIXED] the mapping goes exactly at the
    address asked for, otherwise where the kernel proposes.  Mappings start
    on a page boundary, and never at [MAP_FAILED], which is not an
    address. *)
Definition mmap_placement (a : mmap_args) (m : machine) : option Z :=
  match kernel m a with
  | None => None
  | Some q =>
      if m_len a <=? 0 then None
      else
        let place := if Z.testbit (m_flags a) 4 then m_addr a else q in
        if (place mod OS_PAGE_SIZE =? 0) && negb (place =? MAP_FAILED)
        then Some place
        else None
  end.

(** [mmap]: on success the pages of the new mapping replace whatever was
    there and read as zero; on failure [MAP_FAILED] is returned and memory
    is as before. *)
Definition mmap (a : mmap_args) (m : machine) : Z * machine :=
  match mmap_placement a m with
  | None =>
      (MAP_FAILED,
       {| memory := memory m; kernel := kernel m;
          os_calls := os_calls m ++ [Call_mmap a MAP_FAILED] |})
  | Some q =>
      (q,
       {| memory := fill_zero q (round_up_to_page (m_len a)) (memory m);
          kernel := kernel m;
          os_calls := os_calls m ++ [Call_mmap a q] |})
  end.

(** [zero<page_aligned>(p, size)]; [None] is the failed assertion. *)
Definition zero (page_aligned : bool) (p size : Z) (m : machine)
  : option machine :=
  if page_aligned || is_aligned_block OS_PAGE_SIZE p size then
    match assert NDEBUG (is_aligned_block OS_PAGE_SIZE p size) with
    | None => None
    | Some _ =>
        let '(r, m) := mmap (zero_request p size) m in
        if negb (r =? MAP_FAILED) then Some m
        else Some (bzero p size m)
    end
  else Some (bzero p size m).

(** [reserve<committed>(size)]; [size] is the caller's [*size]. *)
Definition reserve (committed : bool) (size : Z) (m : machine) : outcome Z :=
  let '(p, m) := mmap (reserve_request size) m in
  if p =? MAP_FAILED then error "Out of memory" m
  else Returns p m.

End Backend.

(** A machine for examples: every byte holds [0xAA], and the kernel grants
    requests or not as [grant] says, proposing address [0x100000000]. *)
Definition example_machine (grant : bool) : machine :=
  {| memory := fun _ => 0xAA;
     kernel := fun _ => if grant then Some 0x100000000 else None;
     os_calls := [] |}.

(** What a run of [zero] leaves behind: the calls made and the bytes just
    before the region, at its start, at its end and just after it. *)
Definition zero_probe (page_aligned grant : bool) (p size : Z)
  : option (list os_call * list Z) :=
  match zero 4096 false page_aligned p size (example_machine grant) with
  | Some m =>
      Some (os_calls m,
            map (memory m) [p - 1; p; p + size - 1; p + size])
  | None => None
  end.

End PALApple.

(** * Properties *)

Unset Implicit Arguments.

(** ** Pointer comparison *)

Lemma ptr_eqb_refl (a : AllocPtr) : ptr_eqb a a = true.
Proof. destruct a; simpl; auto using Nat.eqb_refl. Qed.

Lemma ptr_eqb_eq (a b : AllocPtr) : ptr_eqb a b = true <-> a = b.
Proof.
  split.
  - destruct a, b; simpl; intro E; try discriminate; try reflexivity.
    apply Nat.eqb_eq in E. now subst.
  - intros ->. apply ptr_eqb_refl.
Qed.

Lemma ptr_eqb_neq (a b : AllocPtr) : ptr_eqb a b = false <-> a <> b.
Proof.
  rewrite <- ptr_eqb_eq. destruct (ptr_eqb a b); split; congruence.
Qed.

(** ** The libc cleanup hook *)

Section LibcCleanupFacts.
Context {P : Type} `{AllocPool P}.
Import ThreadAllocLibcCleanup.

(** [exit] never writes to the slot, whatever it held. *)
Lemma exit_slot (st : thread P) : slot (exit st) = slot st.
Proof.
  unfold exit, exit_body, get.
  destruct (negb (ptr_eqb (slot st) GlobalPlaceHolder)
            && negb (ptr_eqb (slot st) nullptr)); reflexivity.
Qed.

(** The local variable of [exit] does end up null when a handle was
    released; it is the slot that does not follow. *)
Lemma exit_body_local (p : P) (l : list pool_call) (t : bool) (n : nat) :
  fst (exit_body (mkThread (Handle n) p l t)) = nullptr.
Proof. reflexivity. Qed.

(** C1 (the part the code does and the part it misses): when the cleanup
    entry point runs on a thread whose slot holds a real handle, that handle
    is released to the pool, exactly once, and yet the slot still holds the
    released handle afterwards: it is not null. *)
Theorem exit_releases_but_keeps_slot
  (p : P) (l : list pool_call) (t : bool) (n : nat) :
  let st := mkThread (Handle n) p l t in
  calls (_malloc_thread_cleanup st) = l ++ [Release (Handle n)]
  /\ pool (_malloc_thread_cleanup st) = release (Handle n) p
  /\ slot (_malloc_thread_cleanup st) = Handle n
  /\ slot (_malloc_thread_cleanup st) <> nullptr.
Proof.
  cbv zeta. unfold _malloc_thread_cleanup.
  repeat split; try reflexivity.
  rewrite exit_slot. simpl. discriminate.
Qed.

End LibcCleanupFacts.

(** ** The thread-local destructor *)

Section ThreadDestructorFacts.
Context {P : Type} `{AllocPool P}.
Import ThreadAllocThreadDestructor.

Lemma inner_release_placeholder (st : thread P) :
  slot st = GlobalPlaceHolder -> inner_release st = st.
Proof.
  intros E. unfold inner_release, get. now rewrite E.
Qed.

Lemma inner_release_other (st : thread P) :
  slot st <> GlobalPlaceHolder ->
  inner_release st =
    {| slot := GlobalPlaceHolder;
       pool := release (slot st) (pool st);
       calls := calls st ++ [Release (slot st)];
       tidier := tidier st |}.
Proof.
  intros E. apply ptr_eqb_neq in E.
  unfold inner_release, get. now rewrite E.
Qed.

Lemma inner_release_slot (st : thread P) :
  slot (inner_release st) = GlobalPlaceHolder.
Proof.
  unfold inner_release, get.
  destruct (ptr_eqb (slot st) GlobalPlaceHolder) eqn:E; simpl; auto.
  now apply ptr_eqb_eq.
Qed.

(** C4: after [inner_release] the slot references the placeholder;
    [release] is called on the pool exactly when the slot held something
    other than the placeholder, once, and with the pointer the slot held. *)
Theorem inner_release_resets_slot (st : thread P) :
  slot (inner_release st) = GlobalPlaceHolder
  /\ calls (inner_release st) =
       calls st ++
       (if ptr_eqb (slot st) GlobalPlaceHolder then []
        else [Release (slot st)])
  /\ pool (inner_release st) =
       (if ptr_eqb (slot st) GlobalPlaceHolder then pool st
        else release (slot st) (pool st)).
Proof.
  destruct (ptr_eqb (slot st) GlobalPlaceHolder) eqn:E.
  - apply ptr_eqb_eq in E.
    rewrite (inner_release_placeholder st E), app_nil_r. auto.
  - apply ptr_eqb_neq in E.
    rewrite (inner_release_other st E). simpl. auto.
Qed.

(** C10: a second [inner_release] with no promotion in between changes
    nothing: no further pool call, and the slot is still the placeholder. *)
Theorem inner_release_idempotent (st : thread P) :
  inner_release (inner_release st) = inner_release st
  /\ calls (inner_release (inner_release st)) = calls (inner_release st)
  /\ slot (inner_release (inner_release st)) = GlobalPlaceHolder.
Proof.
  assert (E : inner_release (inner_release st) = inner_release st).
  { apply inner_release_placeholder, inner_release_slot. }
  rewrite E. repeat split.
  apply inner_release_slot.
Qed.

End ThreadDestructorFacts.

(** ** Reading the slot *)

Section GetFacts.
Context {P : Type}.

(** Any accessor that reads the slot and leaves the thread alone returns
    the slot's value on every call of a run. *)
Lemma get_calls_pure (get : thread P -> AllocPtr * thread P) :
  (forall st, get st = (slot st, st)) ->
  forall n st, get_calls get n st = (repeat (slot st) n, st).
Proof.
  intros Hget n. induction n as [|k IH]; intros st; simpl.
  - reflexivity.
  - now rewrite Hget, IH.
Qed.

End GetFacts.

(** C5: on a fresh thread, a run of [get()] calls of any length returns the
    placeholder every time and leaves the thread as it was: the slot, the
    pool and the record of pool calls (still empty) are untouched.  This
    holds for the accessor of both cleanup strategies. *)
Theorem get_on_fresh_thread_is_placeholder
  (P : Type) (p : P) (n : nat) :
  get_calls ThreadAllocThreadDestructor.get n (fresh_thread p)
    = (repeat GlobalPlaceHolder n, fresh_thread p)
  /\ get_calls ThreadAllocLibcCleanup.get n (fresh_thread p)
    = (repeat GlobalPlaceHolder n, fresh_thread p)
  /\ calls (snd (get_calls ThreadAllocThreadDestructor.get n (fresh_thread p)))
    = []
  /\ calls (snd (get_calls ThreadAllocLibcCleanup.get n (fresh_thread p)))
    = [].
Proof.
  assert (D : get_calls ThreadAllocThreadDestructor.get n (fresh_thread p)
              = (repeat GlobalPlaceHolder n, fresh_thread p)).
  { now rewrite get_calls_pure. }
  assert (L : get_calls ThreadAllocLibcCleanup.get n (fresh_thread p)
              = (repeat GlobalPlaceHolder n, fresh_thread p)).
  { now rewrite get_calls_pure. }
  rewrite D, L. auto.
Qed.

(** ** Lazy replacement *)

Section LazyReplacementFacts.
Context {P : Type} `{AllocPool P}.
Variable NDEBUG : bool.
Variable ThreadAlloc : strategy.

Lemma ThreadAlloc_get_reads (st : thread P) :
  ThreadAlloc_get ThreadAlloc st = (slot st, st).
Proof. now destruct ThreadAlloc. Qed.

Lemma register_cleanup_slot (st : thread P) :
  slot (ThreadAlloc_register_cleanup ThreadAlloc st) = slot st.
Proof. now destruct ThreadAlloc. Qed.

Lemma register_cleanup_calls (st : thread P) :
  calls (ThreadAlloc_register_cleanup ThreadAlloc st) = calls st
  /\ pool (ThreadAlloc_register_cleanup ThreadAlloc st) = pool st.
Proof. now destruct ThreadAlloc. Qed.

(** The slow path when the slot already holds a real handle. *)
Lemma slow_already_promoted (st : thread P) :
  slot st <> nullptr -> slot st <> GlobalPlaceHolder ->
  lazy_replacement_slow NDEBUG ThreadAlloc st = Some (slot st, st).
Proof.
  intros N G. apply ptr_eqb_neq in N, G.
  unfold lazy_replacement_slow.
  now rewrite ThreadAlloc_get_reads, N, G.
Qed.

(** The slow path when the slot holds the placeholder or null, in terms of
    what the pool hands out. *)
Lemma slow_acquires (st : thread P) :
  slot st = GlobalPlaceHolder \/ slot st = nullptr ->
  lazy_replacement_slow NDEBUG ThreadAlloc st =
    let h := fst (acquire (pool st)) in
    let st1 := {| slot := h; pool := snd (acquire (pool st));
                  calls := calls st ++ [Acquire h]; tidier := tidier st |} in
    match assert NDEBUG (negb (ptr_eqb h GlobalPlaceHolder)) with
    | None => None
    | Some _ => Some (h, ThreadAlloc_register_cleanup ThreadAlloc st1)
    end.
Proof.
  intros E. unfold lazy_replacement_slow, pool_acquire, set_slot.
  rewrite ThreadAlloc_get_reads.
  assert (C : negb (ptr_eqb (slot st) nullptr)
              && negb (ptr_eqb (slot st) GlobalPlaceHolder) = false).
  { destruct E as [-> | ->]; reflexivity. }
  rewrite C. destruct (acquire (pool st)) as [h p']. simpl.
  destruct (assert NDEBUG (negb (ptr_eqb h GlobalPlaceHolder))); auto.
  now rewrite register_cleanup_slot.
Qed.

(** C2: for every [existing] other than the placeholder,
    [lazy_replacement] returns null and hands back the very same thread
    state (no pool call, slot untouched); for [existing] the placeholder it
    is the slow promotion path, result and effects alike. *)
Theorem lazy_replacement_fast_path (existing : AllocPtr) (st : thread P) :
  (existing <> GlobalPlaceHolder ->
     lazy_replacement NDEBUG ThreadAlloc existing st = Some (nullptr, st))
  /\ (existing = GlobalPlaceHolder ->
     lazy_replacement NDEBUG ThreadAlloc existing st
       = lazy_replacement_slow NDEBUG ThreadAlloc st).
Proof.
  unfold lazy_replacement. split.
  - intros E. apply ptr_eqb_neq in E. now rewrite E.
  - intros ->. reflexivity.
Qed.

(** C3: the slow path re-reads the slot.  A slot holding a real handle is
    returned as it is, with the thread state unchanged (so no [acquire]).
    A slot holding the placeholder or null makes one [acquire] call; the
    handle obtained is stored in the slot and returned, and
    [register_cleanup] of the selected strategy has run.  Whenever the call
    returns, with the assertion compiled in or with a pool that never hands
    out the placeholder, what it returns is the slot's new content and is
    not the placeholder. *)
Theorem lazy_replacement_slow_promotes (st : thread P) :
  (slot st <> nullptr -> slot st <> GlobalPlaceHolder ->
     lazy_replacement_slow NDEBUG ThreadAlloc st = Some (slot st, st))
  /\ (slot st = GlobalPlaceHolder \/ slot st = nullptr ->
      fst (acquire (pool st)) <> GlobalPlaceHolder ->
      lazy_replacement_slow NDEBUG ThreadAlloc st =
        Some (fst (acquire (pool st)),
              ThreadAlloc_register_cleanup ThreadAlloc
                {| slot := fst (acquire (pool st));
                   pool := snd (acquire (pool st));
                   calls := calls st ++ [Acquire (fst (acquire (pool st)))];
                   tidier := tidier st |}))
  /\ (NDEBUG = false \/ fst (acquire (pool st)) <> GlobalPlaceHolder ->
      forall r st',
        lazy_replacement_slow NDEBUG ThreadAlloc st = Some (r, st') ->
        r <> GlobalPlaceHolder /\ slot st' = r).
Proof.
  split; [exact (slow_already_promoted st) | split].
  - intros E A. rewrite (slow_acquires st E). cbv zeta.
    apply ptr_eqb_neq in A. unfold assert. rewrite A.
    now rewrite orb_true_r.
  - intros G r st' R.
    destruct (ptr_eqb (slot st) nullptr) eqn:N;
      [|destruct (ptr_eqb (slot st) GlobalPlaceHolder) eqn:Q].
    + apply ptr_eqb_eq in N.
      rewrite (slow_acquires st (or_intror N)) in R. cbv zeta in R.
      revert R. unfold assert.
      destruct (ptr_eqb (fst (acquire (pool st))) GlobalPlaceHolder) eqn:A.
      * destruct G as [-> | G]; [discriminate|].
        apply ptr_eqb_eq in A. contradiction.
      * rewrite orb_true_r. intros R. inversion R; subst.
        split; [now apply ptr_eqb_neq | now rewrite register_cleanup_slot].
    + apply ptr_eqb_eq in Q.
      rewrite (slow_acquires st (or_introl Q)) in R. cbv zeta in R.
      revert R. unfold assert.
      destruct (ptr_eqb (fst (acquire (pool st))) GlobalPlaceHolder) eqn:A.
      * destruct G as [-> | G]; [discriminate|].
        apply ptr_eqb_eq in A. contradiction.
      * rewrite orb_true_r. intros R. inversion R; subst.
        split; [now apply ptr_eqb_neq | now rewrite register_cleanup_slot].
    + apply ptr_eqb_neq in N, Q.
      rewrite (slow_already_promoted st N Q) in R. inversion R; subst.
      auto.
Qed.

End LazyReplacementFacts.

(** ** One promotion, one teardown *)

Section Lifecycle.
Context {P : Type} `{AllocPool P}.
Import ThreadAllocThreadDestructor.

(** Under the thread-destructor strategy, a fresh thread that takes the
    slow path once and whose storage is then destroyed has made exactly one
    [acquire] and one [release], of the same handle, and ends with the
    placeholder in its slot. *)
Theorem promote_then_destroy (NDEBUG : bool) (p : P) :
  fst (acquire p) <> GlobalPlaceHolder ->
  exists st1,
    lazy_replacement NDEBUG ThreadDestructor GlobalPlaceHolder (fresh_thread p)
      = Some (fst (acquire p), st1)
    /\ slot st1 = fst (acquire p)
    /\ tidier st1 = true
    /\ slot (thread_storage_destroyed st1) = GlobalPlaceHolder
    /\ calls (thread_storage_destroyed st1)
         = [Acquire (fst (acquire p)); Release (fst (acquire p))]
    /\ pool (thread_storage_destroyed st1)
         = release (fst (acquire p)) (snd (acquire p)).
Proof.
  intros A.
  assert (E : slot (fresh_thread p) = GlobalPlaceHolder \/
              slot (fresh_thread p) = nullptr) by (now left).
  eexists. split.
  - unfold lazy_replacement. simpl.
    rewrite (slow_acquires NDEBUG ThreadDestructor (fresh_thread p) E).
    cbv zeta. simpl pool. apply ptr_eqb_neq in A. unfold assert.
    rewrite A, orb_true_r. reflexivity.
  - simpl. unfold thread_storage_destroyed. simpl tidier. cbv iota.
    rewrite inner_release_other by exact A. simpl. auto.
Qed.

End Lifecycle.

(** ** Any sequence of operations *)

Lemma outstanding_snoc (l : list pool_call) (c : pool_call) :
  outstanding (l ++ [c]) = outstanding_step (outstanding l) c.
Proof. unfold outstanding. now rewrite fold_left_app. Qed.

Lemma is_handle_inv (a : AllocPtr) :
  is_handle a = true -> exists n, a = Handle n.
Proof. destruct a; try discriminate. intros _. now exists id. Qed.

Section RunFacts.
Context {P : Type} `{AllocPool P}.
Variable NDEBUG : bool.
Hypothesis pool_ok : acquires_handles P.
Import ThreadAllocThreadDestructor.

(** With a pool that hands out real allocators the slow path returns, and
    the state it returns is the one computed by [slow_acquires]. *)
Lemma slow_promotes (strat : strategy) (st : thread P) :
  slot st = GlobalPlaceHolder \/ slot st = nullptr ->
  exists n,
    fst (acquire (pool st)) = Handle n
    /\ lazy_replacement_slow NDEBUG strat st =
         Some (Handle n,
               ThreadAlloc_register_cleanup strat
                 {| slot := Handle n; pool := snd (acquire (pool st));
                    calls := calls st ++ [Acquire (Handle n)];
                    tidier := tidier st |}).
Proof.
  intros E. destruct (is_handle_inv _ (pool_ok (pool st))) as [n A].
  exists n. split; [exact A|].
  rewrite (slow_acquires NDEBUG strat st E). cbv zeta. rewrite A.
  unfold assert. simpl. now rewrite orb_true_r.
Qed.

Lemma step_accounts_ok (o : op) (st : thread P) :
  accounts_ok st ->
  exists st', step NDEBUG ThreadDestructor o st = Some st' /\ accounts_ok st'.
Proof.
  intros (N & O & T). destruct o as [|existing|]; simpl.
  - exists st. split; [reflexivity | now repeat split].
  - unfold lazy_replacement.
    destruct (negb (ptr_eqb existing GlobalPlaceHolder)).
    { exists st. split; [reflexivity | now repeat split]. }
    destruct (ptr_eqb (slot st) GlobalPlaceHolder) eqn:G.
    + apply ptr_eqb_eq in G.
      destruct (slow_promotes ThreadDestructor st (or_introl G)) as (n & _ & R).
      rewrite R. eexists. split; [reflexivity|].
      repeat split; simpl; try discriminate; auto.
      rewrite outstanding_snoc, O. reflexivity.
    + pose proof G as G'. apply ptr_eqb_neq in G'.
      rewrite (slow_already_promoted NDEBUG ThreadDestructor st N G').
      exists st. split; [reflexivity|]. repeat split; auto. now rewrite G.
  - eexists. split; [reflexivity|]. unfold thread_storage_destroyed.
    destruct (ptr_eqb (slot st) GlobalPlaceHolder) eqn:G.
    + apply ptr_eqb_eq in G.
      destruct (tidier st) eqn:Ti;
        rewrite ?(inner_release_placeholder st G);
        (repeat split; auto; apply ptr_eqb_eq in G; now rewrite G).
    + pose proof G as G'. apply ptr_eqb_neq in G'. rewrite (T G').
      rewrite (inner_release_other st G').
      repeat split; simpl; try discriminate; try congruence.
      rewrite outstanding_snoc, O. simpl. now rewrite ptr_eqb_refl.
Qed.

Lemma run_accounts_ok (ops : list op) (st : thread P) :
  accounts_ok st ->
  exists st', run NDEBUG ThreadDestructor ops st = Some st' /\ accounts_ok st'.
Proof.
  revert st. induction ops as [|o rest IH]; intros st I; simpl.
  - now exists st.
  - destruct (step_accounts_ok o st I) as (st1 & S1 & I1).
    rewrite S1. now apply IH.
Qed.

Lemma fresh_accounts_ok (p : P) : accounts_ok (fresh_thread p).
Proof. repeat split; simpl; try discriminate. congruence. Qed.

(** Under the thread-destructor strategy, with a pool that hands out real
    allocators: take any sequence of [get] and [lazy_replacement] calls
    (with any argument) on a fresh thread, with the destruction of the
    thread's storage at most once somewhere in it, allocations after it
    included.  No assertion fails, the slot is never null, the pool calls
    made are those of a thread holding at most one handle (nothing
    acquired while holding, nothing released that is not held), and the
    slot holds the handle that is checked out, if any.  Nothing is said
    about what becomes of a handle acquired after the destruction. *)
Theorem destructor_runs_keep_accounts (ops : list op) (p : P) :
  destructions ops <= 1 ->
  exists st,
    run NDEBUG ThreadDestructor ops (fresh_thread p) = Some st
    /\ slot st <> nullptr
    /\ outstanding (calls st)
         = Some (if ptr_eqb (slot st) GlobalPlaceHolder then None
                 else Some (slot st)).
Proof.
  intros _.
  destruct (run_accounts_ok ops _ (fresh_accounts_ok p)) as (st & R & N & O & T).
  exists st. now repeat split.
Qed.

End RunFacts.

Section EngineRunFacts.
Context {P : Type} `{AllocPool P}.
Variable NDEBUG : bool.
Hypothesis pool_ok : acquires_handles P.
Import ThreadAllocLibcCleanup.

(** With engine operations only, a thread that started on the placeholder
    has either made no pool call and still holds the placeholder, or has
    made one [acquire] and holds its result. *)
Lemma engine_run_shape (strat : strategy) (ops : list op) (st : thread P) :
  forallb is_engine_op ops = true ->
  (slot st = GlobalPlaceHolder /\ calls st = [])
  \/ (exists n, slot st = Handle n /\ calls st = [Acquire (Handle n)]) ->
  exists st',
    run NDEBUG strat ops st = Some st'
    /\ ((slot st' = GlobalPlaceHolder /\ calls st' = [])
        \/ (exists n, slot st' = Handle n
                      /\ calls st' = [Acquire (Handle n)])).
Proof.
  revert st. induction ops as [|o rest IH]; intros st E I; simpl.
  - now exists st.
  - simpl in E. apply andb_prop in E. destruct E as [Eo E].
    destruct o as [|existing|]; [| |discriminate]; simpl.
    + rewrite ThreadAlloc_get_reads. now apply IH.
    + unfold lazy_replacement.
      destruct (negb (ptr_eqb existing GlobalPlaceHolder)); [now apply IH|].
      destruct I as [[G C] | (n & S & C)].
      * destruct (slow_promotes NDEBUG pool_ok strat st (or_introl G))
          as (n & _ & R).
        rewrite R. apply IH; [exact E|]. right. exists n.
        rewrite register_cleanup_slot.
        rewrite (proj1 (register_cleanup_calls strat _)). simpl.
        now rewrite C.
      * rewrite (slow_already_promoted NDEBUG strat st)
          by (rewrite S; discriminate).
        apply IH; [exact E|]. right. now exists n.
Qed.

(** Under each of the three strategies, with a pool that hands out real
    allocators: [get] and [lazy_replacement] calls, in any number and
    order and with any arguments, on a thread that starts on the
    placeholder, never fail, never call [release], and call [acquire] at
    most once; the handle acquired is the one in the slot. *)
Theorem engine_runs_acquire_at_most_once
  (strat : strategy) (ops : list op) (p : P) :
  forallb is_engine_op ops = true ->
  exists st,
    run NDEBUG strat ops (fresh_thread p) = Some st
    /\ ((slot st = GlobalPlaceHolder /\ calls st = [])
        \/ (exists n, slot st = Handle n
                      /\ calls st = [Acquire (Handle n)])).
Proof.
  intros E. apply engine_run_shape; [exact E|]. left. now split.
Qed.

(** Under the libc strategy, with a pool that hands out real allocators:
    after any sequence of [get] and [lazy_replacement] calls on a fresh
    thread, followed by the one run of the cleanup hook, the thread has
    made either no pool call at all or exactly one [acquire] and one
    [release] of the same handle. *)
Theorem libc_runs_release_once (ops : list op) (p : P) :
  forallb is_engine_op ops = true ->
  exists st,
    run NDEBUG LibcCleanup ops (fresh_thread p) = Some st
    /\ (calls (_malloc_thread_cleanup st) = []
        \/ exists n,
             calls (_malloc_thread_cleanup st)
               = [Acquire (Handle n); Release (Handle n)])
    /\ outstanding (calls (_malloc_thread_cleanup st)) = Some None.
Proof.
  intros E.
  destruct (engine_run_shape LibcCleanup ops (fresh_thread p) E)
    as (st & R & I).
  { left. now split. }
  exists st. split; [exact R|].
  unfold _malloc_thread_cleanup, exit, exit_body, get.
  destruct I as [[G C] | (n & S & C)].
  - rewrite G. simpl. rewrite C. split; [now left | reflexivity].
  - rewrite S. simpl. rewrite C. simpl. split.
    + right. now exists n.
    + unfold outstanding. simpl. now rewrite Nat.eqb_refl.
Qed.

(** Under the thread-destructor strategy, with a pool that hands out real
    allocators: after any sequence of [get] and [lazy_replacement] calls on
    a fresh thread, followed by the one destruction of its storage, the
    slot is the placeholder and the thread has made either no pool call at
    all or exactly one [acquire] and one [release] of the same handle. *)
Theorem destructor_teardown_releases_all (ops : list op) (p : P) :
  forallb is_engine_op ops = true ->
  exists st,
    run NDEBUG ThreadDestructor ops (fresh_thread p) = Some st
    /\ slot (ThreadAllocThreadDestructor.thread_storage_destroyed st)
       = GlobalPlaceHolder
    /\ (calls (ThreadAllocThreadDestructor.thread_storage_destroyed st) = []
        \/ exists n,
             calls (ThreadAllocThreadDestructor.thread_storage_destroyed st)
               = [Acquire (Handle n); Release (Handle n)])
    /\ outstanding
         (calls (ThreadAllocThreadDestructor.thread_storage_destroyed st))
       = Some None.
Proof.
  intros E.
  destruct (engine_run_shape ThreadDestructor ops (fresh_thread p) E)
    as (st & R & I).
  { left. now split. }
  destruct (run_accounts_ok NDEBUG pool_ok ops _ (fresh_accounts_ok p))
    as (st2 & R2 & _ & _ & T).
  rewrite R in R2. inversion R2; subst st2. clear R2.
  exists st. split; [exact R|].
  unfold ThreadAllocThreadDestructor.thread_storage_destroyed.
  destruct I as [[G C] | (n & S & C)].
  - destruct (tidier st); rewrite ?(inner_release_placeholder st G);
      rewrite C; (split; [exact G | split; [now left | reflexivity]]).
  - assert (G : slot st <> GlobalPlaceHolder) by (rewrite S; discriminate).
    rewrite (T G), (inner_release_other st G), S, C. simpl.
    split; [reflexivity | split].
    + right. now exists n.
    + unfold outstanding. simpl. now rewrite Nat.eqb_refl.
Qed.

End EngineRunFacts.

Section PromotionOnce.
Context {P : Type} `{AllocPool P}.
Variable NDEBUG : bool.
Variable ThreadAlloc : strategy.

(** Whatever the slow path returns is what it leaves in the slot. *)
Lemma slow_result_slot (st st' : thread P) (h : AllocPtr) :
  lazy_replacement_slow NDEBUG ThreadAlloc st = Some (h, st') ->
  slot st' = h.
Proof.
  intros R.
  destruct (ptr_eqb (slot st) nullptr) eqn:N;
    [|destruct (ptr_eqb (slot st) GlobalPlaceHolder) eqn:G].
  - apply ptr_eqb_eq in N.
    rewrite (slow_acquires NDEBUG ThreadAlloc st (or_intror N)) in R.
    cbv zeta in R.
    destruct (assert NDEBUG _); [|discriminate].
    inversion R; subst. apply register_cleanup_slot.
  - apply ptr_eqb_eq in G.
    rewrite (slow_acquires NDEBUG ThreadAlloc st (or_introl G)) in R.
    cbv zeta in R.
    destruct (assert NDEBUG _); [|discriminate].
    inversion R; subst. apply register_cleanup_slot.
  - apply ptr_eqb_neq in N, G.
    rewrite (slow_already_promoted NDEBUG ThreadAlloc st N G) in R.
    now inversion R.
Qed.

(** Promotion happens once: when the slow path has returned a handle that
    is neither null nor the placeholder, running it again, directly or
    through [lazy_replacement] on the placeholder, returns the same handle
    and changes nothing: no second [acquire], no new registration. *)
Theorem promotion_happens_once (st st' : thread P) (h : AllocPtr) :
  lazy_replacement_slow NDEBUG ThreadAlloc st = Some (h, st') ->
  h <> nullptr -> h <> GlobalPlaceHolder ->
  lazy_replacement_slow NDEBUG ThreadAlloc st' = Some (h, st')
  /\ lazy_replacement NDEBUG ThreadAlloc GlobalPlaceHolder st' = Some (h, st').
Proof.
  intros R N G. pose proof (slow_result_slot st st' h R) as S.
  assert (E : lazy_replacement_slow NDEBUG ThreadAlloc st' = Some (h, st')).
  { pose proof (slow_already_promoted NDEBUG ThreadAlloc st') as A.
    rewrite S in A. now apply A. }
  split; [exact E|]. unfold lazy_replacement. simpl. exact E.
Qed.

End PromotionOnce.

(** ** The Apple PAL *)

Section PALAppleFacts.
Import PALApple.
Local Open Scope Z_scope.

Variable OS_PAGE_SIZE : Z.

Lemma fill_zero_inside (p len a : Z) (mem : Z -> Z) :
  p <= a < p + len -> fill_zero p len mem a = 0.
Proof.
  intros [L U]. unfold fill_zero.
  apply Z.leb_le in L. apply Z.ltb_lt in U. now rewrite L, U.
Qed.

Lemma fill_zero_outside (p len a : Z) (mem : Z -> Z) :
  a < p \/ p + len <= a -> fill_zero p len mem a = mem a.
Proof.
  intros O. unfold fill_zero.
  destruct (Z.leb_spec p a), (Z.ltb_spec a (p + len)); simpl; auto; lia.
Qed.

Lemma round_up_to_page_ge (len : Z) :
  0 < OS_PAGE_SIZE -> len <= round_up_to_page OS_PAGE_SIZE len.
Proof.
  intros Hp. unfold round_up_to_page.
  pose proof (Z.div_mod (len + OS_PAGE_SIZE - 1) OS_PAGE_SIZE) as D.
  pose proof (Z.mod_pos_bound (len + OS_PAGE_SIZE - 1) OS_PAGE_SIZE Hp) as B.
  lia.
Qed.

Lemma round_up_to_page_aligned (len : Z) :
  0 < OS_PAGE_SIZE -> len mod OS_PAGE_SIZE = 0 ->
  round_up_to_page OS_PAGE_SIZE len = len.
Proof.
  intros Hp A. unfold round_up_to_page.
  apply Z.mod_divide in A; [|lia]. destruct A as [k ->].
  replace (k * OS_PAGE_SIZE + OS_PAGE_SIZE - 1)
    with (OS_PAGE_SIZE - 1 + k * OS_PAGE_SIZE) by lia.
  rewrite Z.div_add by lia. rewrite Z.div_small by lia. lia.
Qed.

(** A mapping request with [MAP_FIXED] lands at the requested address or
    nowhere. *)
Lemma zero_request_placement (p size q : Z) (m : machine) :
  mmap_placement OS_PAGE_SIZE (zero_request p size) m = Some q -> q = p.
Proof.
  unfold mmap_placement.
  destruct (kernel m (zero_request p size)); [|discriminate].
  destruct (m_len (zero_request p size) <=? 0); [discriminate|].
  change (Z.testbit (m_flags (zero_request p size)) 4) with true.
  cbv zeta iota. simpl m_addr.
  destruct ((p mod OS_PAGE_SIZE =? 0) && negb (p =? MAP_FAILED)); congruence.
Qed.

(** No mapping is placed at [MAP_FAILED]. *)
Lemma mmap_placement_valid (a : mmap_args) (m : machine) (q : Z) :
  mmap_placement OS_PAGE_SIZE a m = Some q -> q <> MAP_FAILED.
Proof.
  unfold mmap_placement.
  destruct (kernel m a) as [k|]; [|discriminate].
  destruct (m_len a <=? 0); [discriminate|]. cbv zeta.
  destruct (Z.testbit (m_flags a) 4).
  - destruct (Z.eqb_spec (m_addr a) MAP_FAILED) as [F|F];
      rewrite ?andb_false_r, ?andb_true_r; [discriminate|].
    destruct (m_addr a mod OS_PAGE_SIZE =? 0); congruence.
  - destruct (Z.eqb_spec k MAP_FAILED) as [F|F];
      rewrite ?andb_false_r, ?andb_true_r; [discriminate|].
    destruct (k mod OS_PAGE_SIZE =? 0); congruence.
Qed.

Variable NDEBUG : bool.

(** What [zero] does when the region passes the alignment test: one
    [mmap] call, followed by [bzero] if it returned [MAP_FAILED]. *)
Lemma zero_aligned (page_aligned : bool) (p size : Z) (m : machine) :
  is_aligned_block OS_PAGE_SIZE p size = true ->
  zero OS_PAGE_SIZE NDEBUG page_aligned p size m =
    let rm := mmap OS_PAGE_SIZE (zero_request p size) m in
    if negb (fst rm =? MAP_FAILED) then Some (snd rm)
    else Some (bzero p size (snd rm)).
Proof.
  intros A. unfold zero, assert. rewrite A, !orb_true_r.
  now destruct (mmap OS_PAGE_SIZE (zero_request p size) m).
Qed.

(** What [zero] does when the runtime test is the only one and fails. *)
Lemma zero_misaligned (p size : Z) (m : machine) :
  is_aligned_block OS_PAGE_SIZE p size = false ->
  zero OS_PAGE_SIZE NDEBUG false p size m = Some (bzero p size m).
Proof. intros A. unfold zero. now rewrite A. Qed.

Lemma mmap_calls (a : mmap_args) (m : machine) :
  os_calls (snd (mmap OS_PAGE_SIZE a m))
    = os_calls m ++ [Call_mmap a (fst (mmap OS_PAGE_SIZE a m))].
Proof.
  unfold mmap. now destruct (mmap_placement OS_PAGE_SIZE a m).
Qed.

(** A successful remap of the region leaves all of its bytes zero. *)
Lemma mmap_zero_request_zeroes (p size a : Z) (m : machine) :
  0 < OS_PAGE_SIZE ->
  fst (mmap OS_PAGE_SIZE (zero_request p size) m) <> MAP_FAILED ->
  p <= a < p + size ->
  memory (snd (mmap OS_PAGE_SIZE (zero_request p size) m)) a = 0.
Proof.
  intros Hp R I. revert R. unfold mmap.
  destruct (mmap_placement OS_PAGE_SIZE (zero_request p size) m) as [q|] eqn:E;
    simpl; [intros _ | congruence].
  apply zero_request_placement in E. subst q.
  apply fill_zero_inside.
  pose proof (round_up_to_page_ge size Hp). simpl m_len. lia.
Qed.

(** C6: let the region be page aligned whenever [page_aligned] is true.
    Then [zero] returns, and afterwards every byte of [p, p + size) is
    zero, on each of its paths.  If the region fails the alignment test the
    only call made is the explicit fill; if it passes, the remap is
    attempted, and the explicit fill follows exactly when the remap
    returned [MAP_FAILED]. *)
Theorem zero_fills_region (page_aligned : bool) (p size : Z) (m : machine) :
  0 < OS_PAGE_SIZE ->
  (page_aligned = true -> is_aligned_block OS_PAGE_SIZE p size = true) ->
  exists m',
    zero OS_PAGE_SIZE NDEBUG page_aligned p size m = Some m'
    /\ (forall a, p <= a < p + size -> memory m' a = 0)
    /\ (is_aligned_block OS_PAGE_SIZE p size = false ->
          os_calls m' = os_calls m ++ [Call_bzero p size])
    /\ (is_aligned_block OS_PAGE_SIZE p size = true ->
          exists r,
            os_calls m' =
              os_calls m ++
              Call_mmap (zero_request p size) r ::
              (if r =? MAP_FAILED then [Call_bzero p size] else [])).
Proof.
  intros Hp Pre.
  destruct (is_aligned_block OS_PAGE_SIZE p size) eqn:A.
  - rewrite (zero_aligned page_aligned p size m A). cbv zeta.
    pose proof (mmap_calls (zero_request p size) m) as C.
    pose proof (fun a => mmap_zero_request_zeroes p size a m Hp) as Z0.
    destruct (mmap OS_PAGE_SIZE (zero_request p size) m) as [r m1].
    simpl fst in *. simpl snd in *.
    destruct (Z.eqb_spec r MAP_FAILED) as [F|F]; simpl negb; cbv iota.
    + exists (bzero p size m1). repeat split.
      * intros a I. simpl. now apply fill_zero_inside.
      * discriminate.
      * intros _. exists r. simpl. rewrite C, <- app_assoc.
        apply Z.eqb_eq in F. now rewrite F.
    + exists m1. repeat split.
      * intros a I. now apply Z0.
      * discriminate.
      * intros _. exists r. rewrite C.
        apply Z.eqb_neq in F. now rewrite F.
  - destruct page_aligned; [specialize (Pre eq_refl); discriminate|].
    rewrite (zero_misaligned p size m A).
    exists (bzero p size m). repeat split.
    + intros a I. simpl. now apply fill_zero_inside.
    + discriminate.
Qed.

(** On an aligned region [zero] changes no byte outside [p, p + size). *)
Lemma zero_frame (page_aligned : bool) (p size a : Z) (m m' : machine) :
  0 < OS_PAGE_SIZE ->
  (page_aligned = true -> is_aligned_block OS_PAGE_SIZE p size = true) ->
  zero OS_PAGE_SIZE NDEBUG page_aligned p size m = Some m' ->
  a < p \/ p + size <= a ->
  memory m' a = memory m a.
Proof.
  intros Hp Pre Z0 O.
  destruct (is_aligned_block OS_PAGE_SIZE p size) eqn:A.
  - rewrite (zero_aligned page_aligned p size m A) in Z0. cbv zeta in Z0.
    assert (M : memory (snd (mmap OS_PAGE_SIZE (zero_request p size) m)) a
                = memory m a).
    { unfold mmap.
      destruct (mmap_placement OS_PAGE_SIZE (zero_request p size) m)
        as [q|] eqn:E; simpl; [|reflexivity].
      apply zero_request_placement in E. subst q.
      apply andb_prop in A. destruct A as [_ A]. apply Z.eqb_eq in A.
      rewrite (round_up_to_page_aligned size Hp A).
      now apply fill_zero_outside. }
    destruct (negb (fst (mmap OS_PAGE_SIZE (zero_request p size) m)
                    =? MAP_FAILED));
      inversion Z0; subst; simpl; [|rewrite fill_zero_outside by exact O];
      exact M.
  - destruct page_aligned; [specialize (Pre eq_refl); discriminate|].
    rewrite (zero_misaligned p size m A) in Z0. inversion Z0; subst. simpl.
    now apply fill_zero_outside.
Qed.

Lemma reserve_unfold (committed : bool) (size : Z) (m : machine) :
  reserve OS_PAGE_SIZE committed size m =
    let rm := mmap OS_PAGE_SIZE (reserve_request size) m in
    if fst rm =? MAP_FAILED then Fatal "Out of memory" (snd rm)
    else Returns (fst rm) (snd rm).
Proof.
  unfold reserve, error.
  now destruct (mmap OS_PAGE_SIZE (reserve_request size) m).
Qed.

(** A mapping that was placed covers at least the bytes asked for, and the
    request was not empty. *)
Lemma mmap_granted (a : mmap_args) (m : machine) (q : Z) :
  mmap_placement OS_PAGE_SIZE a m = Some q ->
  0 < m_len a
  /\ memory (snd (mmap OS_PAGE_SIZE a m))
       = fill_zero q (round_up_to_page OS_PAGE_SIZE (m_len a)) (memory m).
Proof.
  intros E. split.
  - revert E. unfold mmap_placement.
    destruct (kernel m a); [|discriminate].
    destruct (Z.leb_spec (m_len a) 0); [discriminate|]. intros _. lia.
  - unfold mmap. now rewrite E.
Qed.

(** C7: [reserve] has two outcomes and no third.  Either it returns an
    address [p], which is not [MAP_FAILED] and is where the operating
    system placed the one mapping requested, of length exactly [size]: the
    pages mapped start at [p], cover no fewer than [size] bytes, and read as
    zero.  Or the mapping was refused and the call ends in the fatal error
    [Out of memory], returning nothing to its caller. *)
Theorem reserve_exact_or_fatal (committed : bool) (size : Z) (m : machine) :
  0 < OS_PAGE_SIZE ->
  match reserve OS_PAGE_SIZE committed size m with
  | Returns p m' =>
      p <> MAP_FAILED
      /\ mmap_placement OS_PAGE_SIZE (reserve_request size) m = Some p
      /\ m_len (reserve_request size) = size
      /\ os_calls m' = os_calls m ++ [Call_mmap (reserve_request size) p]
      /\ size <= round_up_to_page OS_PAGE_SIZE size
      /\ memory m' = fill_zero p (round_up_to_page OS_PAGE_SIZE size) (memory m)
      /\ (forall a, p <= a < p + size -> memory m' a = 0)
  | Fatal msg m' =>
      msg = "Out of memory"%string
      /\ os_calls m' =
           os_calls m ++ [Call_mmap (reserve_request size) MAP_FAILED]
      /\ memory m' = memory m
  end.
Proof.
  intros Hp. rewrite reserve_unfold. cbv zeta.
  pose proof (mmap_calls (reserve_request size) m) as C.
  pose proof (round_up_to_page_ge size Hp) as R.
  destruct (mmap_placement OS_PAGE_SIZE (reserve_request size) m)
    as [q|] eqn:E.
  - pose proof (mmap_placement_valid _ _ _ E) as V.
    destruct (mmap_granted _ _ _ E) as [_ M]. simpl m_len in M.
    revert C M. unfold mmap. rewrite E. simpl fst. simpl snd. intros C M.
    apply Z.eqb_neq in V. rewrite V. apply Z.eqb_neq in V.
    repeat split; try assumption; try reflexivity.
    intros a I. rewrite M. apply fill_zero_inside. lia.
  - revert C. unfold mmap. rewrite E. simpl fst. simpl snd. intros C.
    rewrite Z.eqb_refl. repeat split; assumption.
Qed.

End PALAppleFacts.

Section PALAppleRuns.
Import PALApple.
Local Open Scope Z_scope.

Variable OS_PAGE_SIZE : Z.
Variable NDEBUG : bool.

(** Every mapping starts on a page boundary. *)
Lemma mmap_placement_aligned (a : mmap_args) (m : machine) (q : Z) :
  mmap_placement OS_PAGE_SIZE a m = Some q -> q mod OS_PAGE_SIZE = 0.
Proof.
  unfold mmap_placement.
  destruct (kernel m a) as [k|]; [|discriminate].
  destruct (m_len a <=? 0); [discriminate|]. cbv zeta.
  destruct (Z.testbit (m_flags a) 4).
  - destruct (Z.eqb_spec (m_addr a mod OS_PAGE_SIZE) 0) as [E|E];
      simpl; [|discriminate].
    destruct (negb (m_addr a =? MAP_FAILED)); congruence.
  - destruct (Z.eqb_spec (k mod OS_PAGE_SIZE) 0) as [E|E];
      simpl; [|discriminate].
    destruct (negb (k =? MAP_FAILED)); congruence.
Qed.

(** [zero] stops on its assertion in one situation only: a build with
    assertions, a caller that passed [page_aligned = true], and a region
    that is not page aligned.  In every other case it returns. *)
Theorem zero_aborts_iff_promise_broken
  (page_aligned : bool) (p size : Z) (m : machine) :
  zero OS_PAGE_SIZE NDEBUG page_aligned p size m = None
  <-> (NDEBUG = false /\ page_aligned = true
       /\ is_aligned_block OS_PAGE_SIZE p size = false).
Proof.
  unfold zero, assert.
  destruct (mmap OS_PAGE_SIZE (zero_request p size) m) as [r m1].
  destruct page_aligned, (is_aligned_block OS_PAGE_SIZE p size), NDEBUG;
    simpl; destruct (negb (r =? MAP_FAILED));
    split; try discriminate; try tauto;
    intros (A & B & C); discriminate.
Qed.

(** Whenever [zero] returns, every byte of [p, p + size) is zero: this
    needs no alignment of the region, not even when [page_aligned] was
    passed for a region that is not aligned and the assertion is compiled
    out. *)
Theorem zero_fills_whenever_returns
  (page_aligned : bool) (p size : Z) (m : machine) :
  0 < OS_PAGE_SIZE ->
  match zero OS_PAGE_SIZE NDEBUG page_aligned p size m with
  | Some m' => forall a, p <= a < p + size -> memory m' a = 0
  | None => True
  end.
Proof.
  intros Hp. unfold zero.
  pose proof (fun a => mmap_zero_request_zeroes OS_PAGE_SIZE p size a m Hp)
    as Z0.
  destruct (page_aligned || is_aligned_block OS_PAGE_SIZE p size).
  - destruct (assert NDEBUG (is_aligned_block OS_PAGE_SIZE p size));
      [|exact I].
    destruct (mmap OS_PAGE_SIZE (zero_request p size) m) as [r m1].
    simpl fst in Z0. simpl snd in Z0.
    destruct (Z.eqb_spec r MAP_FAILED) as [F|F]; simpl negb; cbv iota.
    + intros a Ia. simpl. now apply fill_zero_inside.
    + intros a Ia. now apply Z0.
  - intros a Ia. simpl. now apply fill_zero_inside.
Qed.

(** A region that [reserve] returned for a size that is a multiple of the
    page size is page aligned, so [zero<true>] may be called on it: its
    assertion holds, it returns, and the region is zero afterwards. *)
Theorem reserve_then_zero
  (committed : bool) (size p : Z) (m m1 : machine) :
  0 < OS_PAGE_SIZE ->
  size mod OS_PAGE_SIZE = 0 ->
  reserve OS_PAGE_SIZE committed size m = Returns p m1 ->
  is_aligned_block OS_PAGE_SIZE p size = true
  /\ exists m2,
       zero OS_PAGE_SIZE NDEBUG true p size m1 = Some m2
       /\ forall a, p <= a < p + size -> memory m2 a = 0.
Proof.
  intros Hp Hs R.
  assert (A : is_aligned_block OS_PAGE_SIZE p size = true).
  { rewrite reserve_unfold in R. cbv zeta in R. revert R. unfold mmap.
    destruct (mmap_placement OS_PAGE_SIZE (reserve_request size) m)
      as [q|] eqn:E; simpl fst; simpl snd.
    - destruct (q =? MAP_FAILED); [discriminate|].
      intros R. inversion R; subst.
      apply mmap_placement_aligned in E.
      unfold is_aligned_block. rewrite E, Hs. reflexivity.
    - rewrite Z.eqb_refl. discriminate. }
  split; [exact A|].
  rewrite (zero_aligned OS_PAGE_SIZE NDEBUG true p size m1 A). cbv zeta.
  pose proof (fun a => mmap_zero_request_zeroes OS_PAGE_SIZE p size a m1 Hp)
    as Z0.
  destruct (mmap OS_PAGE_SIZE (zero_request p size) m1) as [r m2].
  simpl fst in *. simpl snd in *.
  destruct (Z.eqb_spec r MAP_FAILED) as [F|F]; simpl negb; cbv iota.
  - exists (bzero p size m2). split; [reflexivity|].
    intros a Ia. simpl. now apply fill_zero_inside.
  - exists m2. split; [reflexivity|]. intros a Ia. now apply Z0.
Qed.

End PALAppleRuns.

(** C9: [reserve<true>] and [reserve<false>] are the same function of the
    size and the machine: the same [mmap] request, the same outcome, the
    same state afterwards. *)
Theorem reserve_ignores_committed
  (OS_PAGE_SIZE size : Z) (m : PALApple.machine) :
  PALApple.reserve OS_PAGE_SIZE true size m
    = PALApple.reserve OS_PAGE_SIZE false size m.
Proof. reflexivity. Qed.

(** ** The theorems at concrete inputs *)

Module Concrete.
Import PALApple.
Local Open Scope Z_scope.

Lemma lazy_replacement_fast_path_witness :
  lazy_replacement false ThreadDestructor (Handle 2) attached
    = Some (nullptr, attached)
  /\ lazy_replacement false ThreadDestructor GlobalPlaceHolder
       (fresh_thread pool0)
     = lazy_replacement_slow false ThreadDestructor (fresh_thread pool0).
Proof.
  split.
  - apply (proj1 (lazy_replacement_fast_path false ThreadDestructor
                    (Handle 2) attached)).
    discriminate.
  - apply (proj2 (lazy_replacement_fast_path false ThreadDestructor
                    GlobalPlaceHolder (fresh_thread pool0))).
    reflexivity.
Defined.

Lemma lazy_replacement_slow_promotes_witness :
  lazy_replacement_slow false ThreadDestructor attached
    = Some (Handle 2, attached)
  /\ lazy_replacement_slow false ThreadDestructor (fresh_thread pool0)
     = Some (Handle 5,
             {| slot := Handle 5;
                pool := {| idle := []; next_fresh := 9%nat |};
                calls := [Acquire (Handle 5)];
                tidier := true |})
  /\ Handle 5 <> GlobalPlaceHolder.
Proof.
  split; [|split].
  - apply (proj1 (lazy_replacement_slow_promotes false ThreadDestructor
                    attached)); discriminate.
  - assert (A : fst (acquire (pool (fresh_thread pool0)))
                <> GlobalPlaceHolder) by discriminate.
    exact (proj1 (proj2 (lazy_replacement_slow_promotes false
                           ThreadDestructor (fresh_thread pool0)))
             (or_introl eq_refl) A).
  - apply (proj2 (proj2 (lazy_replacement_slow_promotes false
                           ThreadDestructor (fresh_thread pool0)))
             (or_introl eq_refl)
             (Handle 5)
             {| slot := Handle 5;
                pool := {| idle := []; next_fresh := 9%nat |};
                calls := [Acquire (Handle 5)];
                tidier := true |}).
    reflexivity.
Defined.

Lemma zero_fills_region_witness :
  exists m',
    zero 4096 false true 0x10000 8192 (example_machine true) = Some m'
    /\ (forall a, 0x10000 <= a < 0x10000 + 8192 -> memory m' a = 0)
    /\ (is_aligned_block 4096 0x10000 8192 = false ->
          os_calls m' = [] ++ [Call_bzero 0x10000 8192])
    /\ (is_aligned_block 4096 0x10000 8192 = true ->
          exists r,
            os_calls m' =
              [] ++
              Call_mmap (zero_request 0x10000 8192) r ::
              (if r =? MAP_FAILED then [Call_bzero 0x10000 8192] else [])).
Proof.
  apply (zero_fills_region 4096 false true 0x10000 8192 (example_machine true)).
  - reflexivity.
  - intros _. reflexivity.
Defined.

Lemma reserve_exact_or_fatal_witness :
  match reserve 4096 true 8192 (example_machine true) with
  | Returns p m' =>
      p <> MAP_FAILED
      /\ mmap_placement 4096 (reserve_request 8192) (example_machine true)
           = Some p
      /\ m_len (reserve_request 8192) = 8192
      /\ os_calls m' = [] ++ [Call_mmap (reserve_request 8192) p]
      /\ 8192 <= round_up_to_page 4096 8192
      /\ memory m' = fill_zero p (round_up_to_page 4096 8192)
                       (memory (example_machine true))
      /\ (forall a, p <= a < p + 8192 -> memory m' a = 0)
  | Fatal msg m' =>
      msg = "Out of memory"%string
      /\ os_calls m' = [] ++ [Call_mmap (reserve_request 8192) MAP_FAILED]
      /\ memory m' = memory (example_machine true)
  end.
Proof.
  apply (reserve_exact_or_fatal 4096 true 8192 (example_machine true)).
  reflexivity.
Defined.

Lemma promote_then_destroy_witness :
  exists st1,
    lazy_replacement false ThreadDestructor GlobalPlaceHolder
      (fresh_thread pool0) = Some (Handle 5, st1)
    /\ slot st1 = Handle 5
    /\ tidier st1 = true
    /\ slot (ThreadAllocThreadDestructor.thread_storage_destroyed st1)
         = GlobalPlaceHolder
    /\ calls (ThreadAllocThreadDestructor.thread_storage_destroyed st1)
         = [Acquire (Handle 5); Release (Handle 5)]
    /\ pool (ThreadAllocThreadDestructor.thread_storage_destroyed st1)
         = {| idle := [5%nat]; next_fresh := 9%nat |}.
Proof.
  assert (A : fst (acquire pool0) <> GlobalPlaceHolder) by discriminate.
  exact (promote_then_destroy false pool0 A).
Defined.

Lemma zero_frame_witness :
  memory (snd (mmap 4096 (zero_request 0x10000 8192) (example_machine true)))
    0x12000
  = memory (example_machine true) 0x12000.
Proof.
  apply (zero_frame 4096 false true 0x10000 8192 0x12000
           (example_machine true)).
  - reflexivity.
  - intros _. reflexivity.
  - reflexivity.
  - right. reflexivity.
Defined.

(** *** Runs of the thread-attachment code *)

(** The libc hook after one promotion: the handle goes back to the pool
    and stays in the slot. *)
Example libc_cleanup_after_promotion :
  match lazy_replacement false LibcCleanup GlobalPlaceHolder
          (fresh_thread pool0) with
  | Some (h, st) =>
      (h, slot (ThreadAllocLibcCleanup._malloc_thread_cleanup st),
       calls (ThreadAllocLibcCleanup._malloc_thread_cleanup st),
       idle (pool (ThreadAllocLibcCleanup._malloc_thread_cleanup st)))
  | None => (nullptr, nullptr, [], [])
  end
  = (Handle 5, Handle 5, [Acquire (Handle 5); Release (Handle 5)], [5%nat]).
Proof. reflexivity. Qed.

(** The hook on a thread that never allocated, or whose slot is null, does
    nothing. *)
Example libc_cleanup_placeholder :
  ThreadAllocLibcCleanup.exit (fresh_thread pool0) = fresh_thread pool0
  /\ ThreadAllocLibcCleanup.exit (set_slot nullptr attached)
     = set_slot nullptr attached.
Proof. split; reflexivity. Qed.

(** [inner_release] on an attached thread, and again. *)
Example inner_release_attached :
  ThreadAllocThreadDestructor.inner_release attached
  = {| slot := GlobalPlaceHolder;
       pool := {| idle := [2%nat; 5%nat]; next_fresh := 9%nat |};
       calls := [Release (Handle 2)];
       tidier := true |}
  /\ ThreadAllocThreadDestructor.inner_release
       (ThreadAllocThreadDestructor.inner_release attached)
     = ThreadAllocThreadDestructor.inner_release attached.
Proof. split; reflexivity. Qed.

(** [inner_release] with a null slot passes null to the pool. *)
Example inner_release_null :
  calls (ThreadAllocThreadDestructor.inner_release (set_slot nullptr attached))
  = [Release nullptr].
Proof. reflexivity. Qed.

(** Re-entrant use during teardown: an allocation after [inner_release]
    promotes the slot again, here to the handle just released. *)
Example promotion_after_release :
  match lazy_replacement false ThreadDestructor GlobalPlaceHolder
          (ThreadAllocThreadDestructor.inner_release attached) with
  | Some (h, st) => (h, slot st, calls st)
  | None => (nullptr, nullptr, [])
  end
  = (Handle 2, Handle 2, [Release (Handle 2); Acquire (Handle 2)]).
Proof. reflexivity. Qed.

(** With a pool that hands out the placeholder, the assertion stops the
    slow path; without the assertion the placeholder is stored and
    returned. *)
Example broken_pool_asserts :
  lazy_replacement_slow false ThreadDestructor (fresh_thread tt) = None
  /\ lazy_replacement_slow true ThreadDestructor (fresh_thread tt)
     = Some (GlobalPlaceHolder,
             {| slot := GlobalPlaceHolder; pool := tt;
                calls := [Acquire GlobalPlaceHolder]; tidier := true |}).
Proof. split; reflexivity. Qed.

Example get_three_times :
  get_calls ThreadAllocThreadDestructor.get 3 (fresh_thread pool0)
  = ([GlobalPlaceHolder; GlobalPlaceHolder; GlobalPlaceHolder],
     fresh_thread pool0).
Proof. reflexivity. Qed.

(** *** Runs of the PAL *)

(** Aligned region, remap granted. *)
Example zero_aligned_remapped :
  zero_probe false true 0x10000 8192
  = Some ([Call_mmap (zero_request 0x10000 8192) 0x10000],
          [0xAA; 0; 0; 0xAA]).
Proof. vm_compute. reflexivity. Qed.

(** Aligned region, remap refused: the explicit fill follows. *)
Example zero_aligned_refused :
  zero_probe true false 0x10000 8192
  = Some ([Call_mmap (zero_request 0x10000 8192) MAP_FAILED;
           Call_bzero 0x10000 8192],
          [0xAA; 0; 0; 0xAA]).
Proof. vm_compute. reflexivity. Qed.

(** Misaligned region: the explicit fill only. *)
Example zero_misaligned_filled :
  zero_probe false true 0x10001 100
  = Some ([Call_bzero 0x10001 100], [0xAA; 0; 0; 0xAA]).
Proof. vm_compute. reflexivity. Qed.

(** [page_aligned] promised for a region that is not: the assertion
    fails. *)
Example zero_broken_promise :
  zero_probe true true 0x10001 100 = None.
Proof. reflexivity. Qed.

Example reserve_granted :
  match reserve 4096 false 8192 (example_machine true) with
  | Returns p m => Some (p, os_calls m)
  | Fatal _ _ => None
  end
  = Some (0x100000000, [Call_mmap (reserve_request 8192) 0x100000000]).
Proof. vm_compute. reflexivity. Qed.

Example reserve_refused :
  match reserve 4096 false 8192 (example_machine false) with
  | Returns _ _ => None
  | Fatal msg m => Some (msg, os_calls m)
  end
  = Some ("Out of memory"%string,
          [Call_mmap (reserve_request 8192) MAP_FAILED]).
Proof. vm_compute. reflexivity. Qed.

(** *** Sequences of operations *)

Lemma SpecPool_acquires_handles : acquires_handles SpecPool.
Proof.
  intros p. simpl. unfold SpecPool_acquire. now destruct (idle p).
Qed.

Lemma destructor_runs_keep_accounts_witness :
  exists st,
    run false ThreadDestructor reentrant_ops (fresh_thread pool0) = Some st
    /\ slot st <> nullptr
    /\ outstanding (calls st)
         = Some (if ptr_eqb (slot st) GlobalPlaceHolder then None
                 else Some (slot st)).
Proof.
  exact (destructor_runs_keep_accounts false SpecPool_acquires_handles
           reentrant_ops pool0 (le_n 1)).
Defined.

Lemma destructor_teardown_releases_all_witness :
  exists st,
    run false ThreadDestructor engine_ops (fresh_thread pool0) = Some st
    /\ slot (ThreadAllocThreadDestructor.thread_storage_destroyed st)
       = GlobalPlaceHolder
    /\ (calls (ThreadAllocThreadDestructor.thread_storage_destroyed st) = []
        \/ exists n,
             calls (ThreadAllocThreadDestructor.thread_storage_destroyed st)
               = [Acquire (Handle n); Release (Handle n)])
    /\ outstanding
         (calls (ThreadAllocThreadDestructor.thread_storage_destroyed st))
       = Some None.
Proof.
  exact (destructor_teardown_releases_all false SpecPool_acquires_handles
           engine_ops pool0 eq_refl).
Defined.

(** An allocation after the destruction of the thread's storage: the
    handle acquired then is still checked out at the end of the run. *)
Example reentrant_run :
  option_map (fun st => (slot st, calls st))
    (run false ThreadDestructor reentrant_ops (fresh_thread pool0))
  = Some (Handle 5,
          [Acquire (Handle 5); Release (Handle 5); Acquire (Handle 5)]).
Proof. reflexivity. Qed.

Lemma engine_runs_acquire_at_most_once_witness :
  exists st,
    run false ExternalThreadAlloc engine_ops (fresh_thread pool0) = Some st
    /\ ((slot st = GlobalPlaceHolder /\ calls st = [])
        \/ (exists n, slot st = Handle n
                      /\ calls st = [Acquire (Handle n)])).
Proof.
  exact (engine_runs_acquire_at_most_once false SpecPool_acquires_handles
           ExternalThreadAlloc engine_ops pool0 eq_refl).
Defined.

Lemma libc_runs_release_once_witness :
  exists st,
    run false LibcCleanup engine_ops (fresh_thread pool0) = Some st
    /\ (calls (ThreadAllocLibcCleanup._malloc_thread_cleanup st) = []
        \/ exists n,
             calls (ThreadAllocLibcCleanup._malloc_thread_cleanup st)
               = [Acquire (Handle n); Release (Handle n)])
    /\ outstanding (calls (ThreadAllocLibcCleanup._malloc_thread_cleanup st))
       = Some None.
Proof.
  exact (libc_runs_release_once false SpecPool_acquires_handles
           engine_ops pool0 eq_refl).
Defined.

Lemma promotion_happens_once_witness :
  lazy_replacement_slow false ThreadDestructor
    {| slot := Handle 5;
       pool := {| idle := []; next_fresh := 9%nat |};
       calls := [Acquire (Handle 5)];
       tidier := true |}
  = Some (Handle 5,
          {| slot := Handle 5;
             pool := {| idle := []; next_fresh := 9%nat |};
             calls := [Acquire (Handle 5)];
             tidier := true |})
  /\ lazy_replacement false ThreadDestructor GlobalPlaceHolder
       {| slot := Handle 5;
          pool := {| idle := []; next_fresh := 9%nat |};
          calls := [Acquire (Handle 5)];
          tidier := true |}
     = Some (Handle 5,
             {| slot := Handle 5;
                pool := {| idle := []; next_fresh := 9%nat |};
                calls := [Acquire (Handle 5)];
                tidier := true |}).
Proof.
  apply (promotion_happens_once false ThreadDestructor (fresh_thread pool0)).
  - reflexivity.
  - discriminate.
  - discriminate.
Defined.

(** *** Further runs of the PAL *)

(** The tag as the [int] the backend passes to [mmap], and its bits. *)
Example pal_anon_id_value :
  pal_anon_id = -251658240 /\ pal_anon_id mod 2 ^ 32 = 0xF1000000.
Proof. split; reflexivity. Qed.

(** [page_aligned] promised for a region whose size is not a page multiple,
    in a build without assertions. *)
Lemma zero_fills_whenever_returns_witness :
  match zero 4096 true true 0x10000 100 (example_machine true) with
  | Some m' => forall a, 0x10000 <= a < 0x10000 + 100 -> memory m' a = 0
  | None => True
  end.
Proof.
  apply (zero_fills_whenever_returns 4096 true true 0x10000 100
           (example_machine true)).
  reflexivity.
Defined.

Lemma reserve_then_zero_witness :
  is_aligned_block 4096 0x100000000 8192 = true
  /\ exists m2,
       zero 4096 false true 0x100000000 8192
         (snd (mmap 4096 (reserve_request 8192) (example_machine true)))
       = Some m2
       /\ forall a, 0x100000000 <= a < 0x100000000 + 8192 -> memory m2 a = 0.
Proof.
  apply (reserve_then_zero 4096 false true 8192 0x100000000
           (example_machine true)).
  - reflexivity.
  - reflexivity.
  - reflexivity.
Defined.

(** The same call leaves the region zero, and zeroes the rest of its last
    page as well: that is what the promise of alignment protects. *)
Example zero_broken_promise_ndebug :
  match zero 4096 true true 0x10000 100 (example_machine true) with
  | Some m =>
      map (memory m)
        [0x10000 - 1; 0x10000; 0x10000 + 99; 0x10000 + 100;
         0x10000 + 4095; 0x10000 + 4096]
  | None => []
  end
  = [0xAA; 0; 0; 0; 0; 0xAA].
Proof. vm_compute. reflexivity. Qed.

End Concrete.
